(** * Settings screen and toast queue: a shallow embedding

  Sources embedded here:
  - [src/components/ui/use-toast.ts]  (module [Toast])
  - [src/client/src/pages/settings.tsx] (module [Settings])

  JavaScript values are modelled as follows.  Strings are Rocq strings
  (one Rocq character per code unit; exact on ASCII input).  The Numbers
  the two files compute are all integer valued or NaN; they are modelled
  by [JS.number], with IEEE-754 double rounding written out.  The host
  (React state cells, timers, the HTTP API) is explicit state. *)

From Stdlib Require Import ZArith Lia Ascii String.
From stdpp Require Import base option list strings pretty gmap.

Local Open Scope Z_scope.

(** ** JavaScript Numbers (integer valued) *)

Module JS.

Inductive number : Type :=
| NaN
| Num (z : Z).

(** [Number.MAX_VALUE] = (2^53 - 1) * 2^971. *)
Definition MAX_VALUE : Z := (2 ^ 53 - 1) * 2 ^ 971.

(** Round-to-nearest, ties-to-even, of a non-negative integer to a 53-bit
    significand (finite range only: nothing here comes near overflow). *)
Definition roundNonneg (z : Z) : Z :=
  if z <? 2 ^ 53 then z
  else
    let e := Z.log2 z - 52 in
    let q := z / 2 ^ e in
    let r := z mod 2 ^ e in
    let half := 2 ^ (e - 1) in
    let q' :=
      if r <? half then q
      else if half <? r then q + 1
      else if Z.even q then q else q + 1 in
    q' * 2 ^ e.

Definition roundDouble (z : Z) : Z :=
  if z <? 0 then - roundNonneg (- z) else roundNonneg z.

(** [a + b] *)
Definition add (a b : number) : number :=
  match a, b with
  | Num x, Num y => Num (roundDouble (x + y))
  | _, _ => NaN
  end.

(** [a - b] *)
Definition sub (a b : number) : number :=
  match a, b with
  | Num x, Num y => Num (roundDouble (x - y))
  | _, _ => NaN
  end.

(** [a % b]: remainder with the sign of the dividend; exact on doubles.
    A zero divisor gives NaN. *)
Definition rem (a b : number) : number :=
  match a, b with
  | Num x, Num y => if y =? 0 then NaN else Num (Z.rem x y)
  | _, _ => NaN
  end.

(** [Math.floor(a / d)] for a positive integer constant [d].  The double
    quotient is floored; for the magnitudes that occur (|a| < 2^40) this
    is the floor of the exact quotient. *)
Definition floorDiv (a : number) (d : positive) : number :=
  match a with
  | Num x => Num (x / Z.pos d)
  | NaN => NaN
  end.

(** [a < b] and [a > b]: false as soon as an operand is NaN. *)
Definition lt (a b : number) : bool :=
  match a, b with
  | Num x, Num y => bool_decide (x < y)
  | _, _ => false
  end.

Definition gt (a b : number) : bool := lt b a.

(** [Number.prototype.toString] (also what a template literal applies):
    decimal digits with a leading "-" for negatives, "NaN" for NaN.
    Exact below 10^21, where JavaScript switches to exponent form. *)
Definition toString (a : number) : string :=
  match a with
  | NaN => "NaN"
  | Num x => pretty x
  end.

(** ToBoolean on a number: 0 and NaN are falsy. *)
Definition truthy (a : number) : bool :=
  match a with
  | NaN => false
  | Num x => negb (x =? 0)
  end.

End JS.

(** ** [src/components/ui/use-toast.ts] *)

Module Toast.

Import JS.

Definition TOAST_LIMIT : nat := 1.
Definition TOAST_REMOVE_DELAY : Z := 1000000.

(** [React.ReactNode] is opaque to the queue; a node is named by a key. *)
Definition ReactNode : Type := string.

(** [Omit<ToasterToast, "id">] *)
Record ToastProps : Type := mkProps {
  p_title : option string;
  p_description : option string;
  p_action : option ReactNode;
}.

Record ToasterToast : Type := mkToast {
  id : string;
  title : option string;
  description : option string;
  action : option ReactNode;
}.

(** [{ id, ...props }] *)
Definition withId (i : string) (props : ToastProps) : ToasterToast :=
  {| id := i; title := p_title props; description := p_description props;
     action := p_action props |}.

(** [type State = { toasts: ToasterToast[] }] *)
Record State : Type := mkState { toasts : list ToasterToast }.

(** A pending [setTimeout] callback: it closes over the [setState] of one
    hook instance and over the identifier to remove. *)
Record Timer : Type := mkTimer {
  due : Z;
  target : nat;
  removes : string;
}.

(** The process: the module-level [count], one React state cell per
    mounted [useToast] instance (indexed in mount order), the host's timer
    queue and its clock in milliseconds. *)
Record World : Type := mkWorld {
  count : number;
  cells : list State;
  timers : list Timer;
  now : Z;
}.

(** [let count = 0], nothing mounted, no timer. *)
Definition initial : World :=
  {| count := Num 0; cells := []; timers := []; now := 0 |}.

(** [function genId()]: returns the identifier and the updated [count]. *)
Definition genId (c : number) : string * number :=
  let c' := rem (add c (Num 1)) (Num MAX_VALUE) in
  (toString c', c').

(** [React.useState<State>({ toasts: [] })] on first render of a
    component: a new state cell.  Returns the instance's index. *)
Definition useToast (w : World) : nat * World :=
  (length (cells w),
   {| count := count w; cells := cells w ++ [ {| toasts := [] |} ];
      timers := timers w; now := now w |}).

(** [setState(updater)] of instance [i]. *)
Definition setState (i : nat) (f : State -> State) (w : World) : World :=
  {| count := count w; cells := alter f i (cells w);
     timers := timers w; now := now w |}.

(** The [toasts] field returned by instance [i] on its next render. *)
Definition read (i : nat) (w : World) : list ToasterToast :=
  match cells w !! i with
  | Some st => toasts st
  | None => []
  end.

(** The updater of the enqueue:
    [[...state.toasts, { id, ...props }].slice(0, TOAST_LIMIT)]. *)
Definition addToast (t : ToasterToast) (st : State) : State :=
  {| toasts := take TOAST_LIMIT (toasts st ++ [t]) |}.

(** The updater of the timeout:
    [state.toasts.filter((t) => t.id !== id)]. *)
Definition removeToast (i : string) (st : State) : State :=
  {| toasts := filter (fun t => id t <> i) (toasts st) |}.

(** [setTimeout(callback, delay)], for the one callback the file schedules:
    remove identifier [tid] from instance [i]. *)
Definition setTimeout (i : nat) (tid : string) (delay : Z) (w : World) : World :=
  {| count := count w; cells := cells w;
     timers := timers w ++ [ {| due := now w + delay; target := i; removes := tid |} ];
     now := now w |}.

(** [toast(props)] of instance [i].  The JavaScript function returns
    nothing; the identifier it drew is returned here so that statements can
    name it. *)
Definition toast (i : nat) (props : ToastProps) (w : World) : string * World :=
  let '(tid, c') := genId (count w) in
  let w := {| count := c'; cells := cells w; timers := timers w; now := now w |} in
  let w := setState i (addToast (withId tid props)) w in
  let w := setTimeout i tid TOAST_REMOVE_DELAY w in
  (tid, w).

(** Running one timer callback. *)
Definition fire (w : World) (tm : Timer) : World :=
  setState (target tm) (removeToast (removes tm)) w.

(** The event loop lets [dt] milliseconds pass: every timer that is due by
    then runs, in the order it was scheduled, and leaves the queue. *)
Definition advance (dt : Z) (w : World) : World :=
  let t := now w + Z.max 0 dt in
  let ready := filter (fun tm => due tm <= t) (timers w) in
  let pending := filter (fun tm => ~ due tm <= t) (timers w) in
  let w1 := foldl fire w ready in
  {| count := count w1; cells := cells w1; timers := pending; now := t |}.

Inductive event : Type :=
| Mount
| Enqueue (i : nat) (props : ToastProps)
| Advance (dt : Z).

Definition step (w : World) (e : event) : World :=
  match e with
  | Mount => snd (useToast w)
  | Enqueue i props => snd (toast i props w)
  | Advance dt => advance dt w
  end.

Definition run (evs : list event) (w : World) : World := foldl step w evs.

(** The values [count] takes in a run of the program: it starts at 0 and
    changes only through [genId]. *)
Inductive CountReach : number -> Prop :=
| reach_init : CountReach (Num 0)
| reach_next c : CountReach c -> CountReach (snd (genId c)).

(** Number of enqueue calls in a sequence of events. *)
Fixpoint enqueues (evs : list event) : Z :=
  match evs with
  | [] => 0
  | Enqueue _ _ :: evs' => 1 + enqueues evs'
  | _ :: evs' => enqueues evs'
  end.



(** Every entry on show is backed by a timer: all pending timers are still
    ahead of the clock, and each entry of each instance's list has a
    pending timer of that instance carrying its identifier. *)
Definition backed (w : World) : Prop :=
  (forall tm, tm ∈ timers w -> now w < due tm)
  /\ (forall (i : nat) t, t ∈ read i w ->
        exists tm, tm ∈ timers w /\ target tm = i /\ removes tm = id t).

(** What one timer callback does to the state cells. *)
Definition fireCells (cs : list State) (tm : Timer) : list State :=
  alter (removeToast (removes tm)) (target tm) cs.

End Toast.

(** ** [src/client/src/pages/settings.tsx] *)

Module Settings.

Import JS.

(** *** Completions: what a block of statements can do *)

Inductive completion (A : Type) : Type :=
| Normal (a : A)
| Throw (e : string).
Arguments Normal {A} a.
Arguments Throw {A} e.

#[export] Instance completion_ret : MRet completion := fun A a => Normal a.
#[export] Instance completion_bind : MBind completion := fun A B f m =>
  match m with
  | Normal a => f a
  | Throw e => Throw e
  end.

(** [try { body } catch (error) { handler }] *)
Definition try_catch {A} (body : completion A) (handler : string -> completion A)
  : completion A :=
  match body with
  | Normal a => Normal a
  | Throw e => handler e
  end.

(** *** The host's [Date]

    [new Date(s)] never throws on a string: an unparsable one gives the
    "Invalid Date", whose time value is NaN.  The parser below is the
    ECMAScript date-time format for the one date the code ever builds,
      2023-01-01THH:mm[:ss[.sss]][Z|+HH:mm|-HH:mm],
    and every other string is invalid (hosts may accept more; that
    fallback is implementation-defined).  Without an offset the time is
    local: [LocalTZA] is the host's zone offset, in milliseconds, on the
    reference date. *)

Definition digit (c : ascii) : option Z :=
  let n := Z.of_N (Ascii.N_of_ascii c) in
  if bool_decide (48 <= n <= 57) then Some (n - 48) else None.

Definition twoDigits (a b : ascii) : option Z :=
  x ← digit a; y ← digit b; Some (10 * x + y).

Definition threeDigits (a b c : ascii) : option Z :=
  x ← digit a; y ← digit b; z ← digit c; Some (100 * x + 10 * y + z).

(** The zone designator: [Some None] is "absent" (local time),
    [Some (Some o)] an explicit offset of [o] milliseconds. *)
Definition parseOffset (s : string) : option (option Z) :=
  match s with
  | EmptyString => Some None
  | String z EmptyString => if Ascii.eqb z "Z" then Some (Some 0) else None
  | String sg (String a (String b (String c0 (String c (String d EmptyString))))) =>
      if Ascii.eqb c0 ":" then
        h ← twoDigits a b;
        m ← twoDigits c d;
        if bool_decide (h <= 23 /\ m <= 59) then
          if Ascii.eqb sg "+" then Some (Some ((h * 60 + m) * 60000))
          else if Ascii.eqb sg "-" then Some (Some (- ((h * 60 + m) * 60000)))
          else None
        else None
      else None
  | _ => None
  end.

(** The optional [.sss] after the seconds: milliseconds and what follows. *)
Definition parseMillis (s : string) : option (Z * string) :=
  match s with
  | String p (String g (String i (String j rest))) =>
      if Ascii.eqb p "." then ms ← threeDigits g i j; Some (ms, rest)
      else Some (0, s)
  | _ => Some (0, s)
  end.

(** The optional [:ss[.sss]] after the minutes. *)
Definition parseSeconds (s : string) : option (Z * Z * string) :=
  match s with
  | String p (String e (String f rest)) =>
      if Ascii.eqb p ":" then
        sec ← twoDigits e f;
        '(ms, rest') ← parseMillis rest;
        Some (sec, ms, rest')
      else Some (0, 0, s)
  | _ => Some (0, 0, s)
  end.

(** Milliseconds since midnight, and the offset found. *)
Definition parseTime (s : string) : option (Z * option Z) :=
  match s with
  | String a (String b (String c0 (String c (String d rest)))) =>
      if Ascii.eqb c0 ":" then
        h ← twoDigits a b;
        m ← twoDigits c d;
        '(sec, ms, rest') ← parseSeconds rest;
        off ← parseOffset rest';
        if bool_decide ((h <= 23 /\ m <= 59 /\ sec <= 59)
                        \/ (h = 24 /\ m = 0 /\ sec = 0 /\ ms = 0))
        then Some (((h * 60 + m) * 60 + sec) * 1000 + ms, off)
        else None
      else None
  | _ => None
  end.

(** 2023-01-01T00:00:00Z in milliseconds since the epoch. *)
Definition day_2023_01_01 : Z := 1672531200000.

Definition datePrefix : string := "2023-01-01T".

Fixpoint stripPrefix (p s : string) : option string :=
  match p, s with
  | EmptyString, _ => Some s
  | String a p', String b s' => if Ascii.eqb a b then stripPrefix p' s' else None
  | String _ _, EmptyString => None
  end.

Record Date : Type := mkDate { timeValue : number }.

Section Host.

Variable LocalTZA : Z.

(** [Date.parse] *)
Definition Date_parse (s : string) : number :=
  match stripPrefix datePrefix s with
  | Some t =>
      match parseTime t with
      | Some (ms, Some off) => Num (day_2023_01_01 + ms - off)
      | Some (ms, None) => Num (day_2023_01_01 + ms - LocalTZA)
      | None => NaN
      end
  | None => NaN
  end.

(** [new Date(s)] *)
Definition Date_new (s : string) : completion Date :=
  Normal {| timeValue := Date_parse s |}.

(** [d.getTime()] *)
Definition getTime (d : Date) : number := timeValue d.

(** [const calculateDuration = (startTime, endTime) => { ... }] *)
Definition calculateDuration (startTime endTime : string) : completion string :=
  try_catch
    (start ← Date_new (datePrefix +:+ startTime);
     end_ ← Date_new (datePrefix +:+ endTime);
     let durationMs := sub (getTime end_) (getTime start) in
     let minutes := floorDiv durationMs 60000 in
     if lt minutes (Num 60) then
       Normal (toString minutes +:+ " minutos")
     else
       let hours := floorDiv minutes 60 in
       let remainingMins := rem minutes (Num 60) in
       Normal (if gt remainingMins (Num 0)
               then toString hours +:+ "h " +:+ toString remainingMins +:+ "min"
               else toString hours +:+ " horas"))
    (fun _ => Normal "Formato inválido").

End Host.

(** A well-formed "HH:MM" string: two decimal digits for the hour, in
    00..23, a colon, two decimal digits for the minute, in 00..59, and
    nothing else.  Gives the hour and the minute. *)
Definition parseHHMM (s : string) : option (Z * Z) :=
  match s with
  | String a (String b (String c0 (String c (String d EmptyString)))) =>
      if Ascii.eqb c0 ":" then
        h ← twoDigits a b;
        m ← twoDigits c d;
        if bool_decide (h <= 23 /\ m <= 59) then Some (h, m) else None
      else None
  | _ => None
  end.

(** *** Form schemas (zod) and forms (react-hook-form) *)

Record ActivityTypeFormValues : Type := mkActivityValues {
  name : string;
  code : string;
  color : string;
}.

Record TimeSlotFormValues : Type := mkTimeSlotValues {
  startTime : string;
  endTime : string;
}.

(** A validation issue: the field it is attached to and its message. *)
Record issue : Type := mkIssue {
  path : string;
  message : string;
}.

(** [z.string().min(n, message)] on the field [field]. *)
Definition min (n : nat) (msg : string) (field value : string) : list issue :=
  if bool_decide (String.length value < n)%nat
  then [ {| path := field; message := msg |} ]
  else [].

(** [activityTypeSchema]: the issues found, none when the input passes. *)
Definition activityTypeSchema (v : ActivityTypeFormValues) : list issue :=
  min 2 "Nome deve ter pelo menos 2 caracteres" "name" (name v)
  ++ min 2 "Código deve ter pelo menos 2 caracteres" "code" (code v)
  ++ min 1 "Cor é obrigatória" "color" (color v).

(** [timeSlotSchema] *)
Definition timeSlotSchema (v : TimeSlotFormValues) : list issue :=
  min 5 "Hora inicial deve estar no formato HH:MM" "startTime" (startTime v)
  ++ min 5 "Hora final deve estar no formato HH:MM" "endTime" (endTime v).

(** The state of a [useForm] instance. *)
Record form (V : Type) : Type := mkForm {
  defaultValues : V;
  values : V;
  errors : list issue;
}.
Arguments mkForm {V} _ _ _.
Arguments defaultValues {V} _.
Arguments values {V} _.
Arguments errors {V} _.

(** [form.reset()] goes back to the form's default values; [form.reset(v)]
    installs [v] as values and as the new defaults. *)
Definition reset {V} (arg : option V) (f : form V) : form V :=
  match arg with
  | None => {| defaultValues := defaultValues f; values := defaultValues f; errors := [] |}
  | Some v => {| defaultValues := v; values := v; errors := [] |}
  end.

(** *** The outside world: API, query cache, toasts *)

Inductive method : Type := POST | PUT | DELETE.

(** What the promise of [apiRequest] settles to; a rejection carries
    [error.message]. *)
Inductive response : Type :=
| Resolved
| Rejected (msg : string).

Inductive payload : Type :=
| ActivityBody (v : ActivityTypeFormValues) (i : option Z)
| TimeSlotBody (v : TimeSlotFormValues)
| EmptyBody.

Inductive variant : Type := Default | Destructive.

Record toastArgs : Type := mkToastArgs {
  title : string;
  description : string;
  variant_ : variant;
}.

(** Calls that leave the component, in the order they are made. *)
Inductive effect : Type :=
| ApiRequest (m : method) (url : string) (body : payload)
| ToastCall (t : toastArgs)
| InvalidateQueries (queryKey : string).

(** The component's state ([useState] cells and forms), the query keys
    currently marked invalid in the cache, and the log of outside calls. *)
Record View : Type := mkView {
  editingActivityId : option Z;
  activityModalOpen : bool;
  timeSlotModalOpen : bool;
  activityForm : form ActivityTypeFormValues;
  timeSlotForm : form TimeSlotFormValues;
  invalidated : gset string;
  log : list effect;
}.

Definition setEditingActivityId (x : option Z) (st : View) : View :=
  {| editingActivityId := x; activityModalOpen := activityModalOpen st;
     timeSlotModalOpen := timeSlotModalOpen st; activityForm := activityForm st;
     timeSlotForm := timeSlotForm st; invalidated := invalidated st; log := log st |}.

Definition setActivityModalOpen (b : bool) (st : View) : View :=
  {| editingActivityId := editingActivityId st; activityModalOpen := b;
     timeSlotModalOpen := timeSlotModalOpen st; activityForm := activityForm st;
     timeSlotForm := timeSlotForm st; invalidated := invalidated st; log := log st |}.

Definition setTimeSlotModalOpen (b : bool) (st : View) : View :=
  {| editingActivityId := editingActivityId st; activityModalOpen := activityModalOpen st;
     timeSlotModalOpen := b; activityForm := activityForm st;
     timeSlotForm := timeSlotForm st; invalidated := invalidated st; log := log st |}.

Definition withActivityForm (f : form ActivityTypeFormValues) (st : View) : View :=
  {| editingActivityId := editingActivityId st; activityModalOpen := activityModalOpen st;
     timeSlotModalOpen := timeSlotModalOpen st; activityForm := f;
     timeSlotForm := timeSlotForm st; invalidated := invalidated st; log := log st |}.

Definition withTimeSlotForm (f : form TimeSlotFormValues) (st : View) : View :=
  {| editingActivityId := editingActivityId st; activityModalOpen := activityModalOpen st;
     timeSlotModalOpen := timeSlotModalOpen st; activityForm := activityForm st;
     timeSlotForm := f; invalidated := invalidated st; log := log st |}.

Definition emit (e : effect) (st : View) : View :=
  {| editingActivityId := editingActivityId st; activityModalOpen := activityModalOpen st;
     timeSlotModalOpen := timeSlotModalOpen st; activityForm := activityForm st;
     timeSlotForm := timeSlotForm st; invalidated := invalidated st;
     log := log st ++ [e] |}.

(** [toast({ title, description, variant })] *)
Definition toast (t : toastArgs) (st : View) : View := emit (ToastCall t) st.

(** [queryClient.invalidateQueries({ queryKey: [key] })] *)
Definition invalidateQueries (key : string) (st : View) : View :=
  emit (InvalidateQueries key)
    {| editingActivityId := editingActivityId st; activityModalOpen := activityModalOpen st;
       timeSlotModalOpen := timeSlotModalOpen st; activityForm := activityForm st;
       timeSlotForm := timeSlotForm st; invalidated := {[ key ]} ∪ invalidated st;
       log := log st |}.

(** ToBoolean of a [number | null] / [number | undefined] identifier. *)
Definition truthyId (x : option Z) : bool :=
  match x with
  | Some n => truthy (Num n)
  | None => false
  end.

(** Default values of the activity form: blue. *)
Definition activityDefaults : ActivityTypeFormValues :=
  {| name := ""; code := ""; color := "#3b82f6" |}.

Definition timeSlotDefaults : TimeSlotFormValues :=
  {| startTime := ""; endTime := "" |}.

(** The component as first rendered. *)
Definition mounted : View :=
  {| editingActivityId := None; activityModalOpen := false;
     timeSlotModalOpen := false;
     activityForm := mkForm activityDefaults activityDefaults [];
     timeSlotForm := mkForm timeSlotDefaults timeSlotDefaults [];
     invalidated := ∅; log := [] |}.

Section Api.

(** The API server: how a request with this method and URL settles. *)
Variable server : method -> string -> response.

(** [apiRequest(method, url, data)] *)
Definition apiRequest (m : method) (url : string) (body : payload) (st : View)
  : response * View :=
  (server m url, emit (ApiRequest m url body) st).

(** [useMutation({ mutationFn, onSuccess, onError })], [mutate(vars)]:
    the handlers run when the promise settles. *)
Definition mutate {X} (mutationFn : X -> View -> response * View)
    (onSuccess : View -> View) (onError : string -> View -> View)
    (vars : X) (st : View) : View :=
  let '(r, st1) := mutationFn vars st in
  match r with
  | Resolved => onSuccess st1
  | Rejected msg => onError msg st1
  end.

Definition saveActivityType (data : ActivityTypeFormValues * option Z) : View -> View :=
  mutate
    (fun '(v, i) st =>
       match i with
       | Some n =>
           if truthy (Num n)
           then apiRequest PUT ("/api/activity-types/" +:+ toString (Num n))
                  (ActivityBody v i) st
           else apiRequest POST "/api/activity-types" (ActivityBody v i) st
       | None => apiRequest POST "/api/activity-types" (ActivityBody v i) st
       end)
    (fun st =>
       let st := toast {| title := "Sucesso";
                          description :=
                            if truthyId (editingActivityId st)
                            then "Tipo de atividade atualizado com sucesso."
                            else "Tipo de atividade criado com sucesso.";
                          variant_ := Default |} st in
       let st := setActivityModalOpen false st in
       let st := withActivityForm (reset None (activityForm st)) st in
       let st := setEditingActivityId None st in
       invalidateQueries "/api/activity-types" st)
    (fun msg st =>
       toast {| title := "Erro"; description := "Falha ao salvar: " +:+ msg;
                variant_ := Destructive |} st)
    data.

Definition deleteActivityType (i : Z) : View -> View :=
  mutate
    (fun i st =>
       apiRequest DELETE ("/api/activity-types/" +:+ toString (Num i)) EmptyBody st)
    (fun st =>
       let st := toast {| title := "Sucesso";
                          description := "Tipo de atividade excluído com sucesso.";
                          variant_ := Default |} st in
       invalidateQueries "/api/activity-types" st)
    (fun msg st =>
       toast {| title := "Erro"; description := "Falha ao excluir: " +:+ msg;
                variant_ := Destructive |} st)
    i.

Definition saveTimeSlot (data : TimeSlotFormValues) : View -> View :=
  mutate
    (fun v st => apiRequest POST "/api/time-slots" (TimeSlotBody v) st)
    (fun st =>
       let st := toast {| title := "Sucesso";
                          description := "Horário adicionado com sucesso.";
                          variant_ := Default |} st in
       let st := setTimeSlotModalOpen false st in
       let st := withTimeSlotForm (reset None (timeSlotForm st)) st in
       invalidateQueries "/api/time-slots" st)
    (fun msg st =>
       toast {| title := "Erro"; description := "Falha ao salvar: " +:+ msg;
                variant_ := Destructive |} st)
    data.

Definition deleteTimeSlot (i : Z) : View -> View :=
  mutate
    (fun i st =>
       apiRequest DELETE ("/api/time-slots/" +:+ toString (Num i)) EmptyBody st)
    (fun st =>
       let st := toast {| title := "Sucesso";
                          description := "Horário excluído com sucesso.";
                          variant_ := Default |} st in
       invalidateQueries "/api/time-slots" st)
    (fun msg st =>
       toast {| title := "Erro"; description := "Falha ao excluir: " +:+ msg;
                variant_ := Destructive |} st)
    i.

(** [handleEditActivity(activity)] *)
Definition handleEditActivity (i : Z) (v : ActivityTypeFormValues) (st : View) : View :=
  let st := setEditingActivityId (Some i) st in
  let st := withActivityForm (reset (Some v) (activityForm st)) st in
  setActivityModalOpen true st.

(** [handleNewActivity()] *)
Definition handleNewActivity (st : View) : View :=
  let st := setEditingActivityId None st in
  let st := withActivityForm (reset (Some activityDefaults) (activityForm st)) st in
  setActivityModalOpen true st.

(** [onSubmitActivityType(data)] *)
Definition onSubmitActivityType (data : ActivityTypeFormValues) (st : View) : View :=
  if truthyId (editingActivityId st)
  then saveActivityType (data, editingActivityId st) st
  else saveActivityType (data, None) st.

(** [onSubmitTimeSlot(data)] *)
Definition onSubmitTimeSlot (data : TimeSlotFormValues) (st : View) : View :=
  saveTimeSlot data st.

(** [form.handleSubmit(onValid)] with [zodResolver(schema)]: the
    handler runs only when the schema finds no issue; otherwise the
    issues become the form's field errors. *)
Definition handleSubmit {V} (schema : V -> list issue) (get : View -> form V)
    (set : form V -> View -> View) (onValid : V -> View -> View) (st : View) : View :=
  let f := get st in
  match schema (values f) with
  | [] => onValid (values f)
            (set {| defaultValues := defaultValues f; values := values f; errors := [] |} st)
  | iss => set {| defaultValues := defaultValues f; values := values f; errors := iss |} st
  end.

(** [<form onSubmit={activityForm.handleSubmit(onSubmitActivityType)}>] *)
Definition submitActivityForm : View -> View :=
  handleSubmit activityTypeSchema activityForm withActivityForm onSubmitActivityType.

(** [<form onSubmit={timeSlotForm.handleSubmit(onSubmitTimeSlot)}>] *)
Definition submitTimeSlotForm : View -> View :=
  handleSubmit timeSlotSchema timeSlotForm withTimeSlotForm onSubmitTimeSlot.

(** The five writes the screen can issue. *)
Inductive write : Type :=
| CreateActivity (v : ActivityTypeFormValues)
| UpdateActivity (i : Z) (v : ActivityTypeFormValues)
| DeleteActivity (i : Z)
| CreateTimeSlot (v : TimeSlotFormValues)
| DeleteTimeSlot (i : Z).

Definition perform (wr : write) : View -> View :=
  match wr with
  | CreateActivity v => saveActivityType (v, None)
  | UpdateActivity i v => saveActivityType (v, Some i)
  | DeleteActivity i => deleteActivityType i
  | CreateTimeSlot v => saveTimeSlot v
  | DeleteTimeSlot i => deleteTimeSlot i
  end.

(** The query key under which the list of the written resource is cached:
    the [queryKey] of the matching [useQuery]. *)
Definition listKey (wr : write) : string :=
  match wr with
  | CreateActivity _ | UpdateActivity _ _ | DeleteActivity _ => "/api/activity-types"
  | CreateTimeSlot _ | DeleteTimeSlot _ => "/api/time-slots"
  end.

End Api.

(** The query keys passed to [invalidateQueries] in a log, in order. *)
Definition invalidatedKeys (l : list effect) : list string :=
  omap (fun e => match e with InvalidateQueries k => Some k | _ => None end) l.

(** The requests sent to the API in a log, in order. *)
Definition requested (l : list effect) : list (method * string) :=
  omap (fun e => match e with ApiRequest m u _ => Some (m, u) | _ => None end) l.

(** The toasts raised in a log, in order. *)
Definition toasted (l : list effect) : list toastArgs :=
  omap (fun e => match e with ToastCall t => Some t | _ => None end) l.

End Settings.

(** * Properties of the toast queue *)

Module ToastFacts.

Import JS Toast.

#[local] Arguments genId : simpl never.

(** ** The identifier counter *)

Lemma two53_lt_MAX_VALUE : 2 ^ 53 < MAX_VALUE.
Proof. vm_compute. reflexivity. Qed.

Lemma roundDouble_small z : 0 <= z < 2 ^ 53 -> roundDouble z = z.
Proof.
  intros [H0 H1]. unfold roundDouble, roundNonneg.
  destruct (Z.ltb_spec z 0) as [?|_]; [lia|].
  destruct (Z.ltb_spec z (2 ^ 53)) as [_|?]; [reflexivity|lia].
Qed.

Lemma roundDouble_two53 : roundDouble (2 ^ 53) = 2 ^ 53.
Proof. vm_compute. reflexivity. Qed.

Lemma genId_below c :
  0 <= c < 2 ^ 53 -> genId (Num c) = (pretty (c + 1), Num (c + 1)).
Proof.
  intros Hc. pose proof two53_lt_MAX_VALUE as HM.
  assert (Hr : roundDouble (c + 1) = c + 1).
  { destruct (decide (c + 1 = 2 ^ 53)) as [->|Hne].
    - apply roundDouble_two53.
    - apply roundDouble_small. lia. }
  unfold genId, add, rem. rewrite Hr.
  destruct (Z.eqb_spec MAX_VALUE 0) as [E|_]; [lia|].
  rewrite Z.rem_small by lia. reflexivity.
Qed.

Lemma genId_at_two53 :
  genId (Num (2 ^ 53)) = ("9007199254740992"%string, Num (2 ^ 53)).
Proof. vm_compute. reflexivity. Qed.

Lemma CountReach_range c :
  CountReach c -> exists z, c = Num z /\ 0 <= z <= 2 ^ 53.
Proof.
  induction 1 as [|c _ (z & -> & Hz)].
  - exists 0. split; [reflexivity|]. split; [lia|]. vm_compute. discriminate.
  - destruct (decide (z = 2 ^ 53)) as [->|Hne].
    + rewrite genId_at_two53. exists (2 ^ 53). split; [reflexivity|lia].
    + rewrite genId_below by lia. exists (z + 1). split; [reflexivity|lia].
Qed.


(** On every count the program reaches below 2^53, a call returns the
    decimal text of the count plus one, which is positive, and stores it. *)
Lemma genId_increments_below_two53 c :
  CountReach c ->
  exists z, c = Num z /\ 0 <= z
            /\ (z < 2 ^ 53 -> genId c = (pretty (z + 1), Num (z + 1)) /\ 0 < z + 1).
Proof.
  intros Hc. destruct (CountReach_range c Hc) as (z & -> & Hz).
  exists z. split; [reflexivity|]. split; [lia|].
  intros Hlt. rewrite genId_below by lia. split; [reflexivity|lia].
Qed.


(** Were the sum ever equal to the bound, the remainder would be 0, not 1. *)
Lemma rem_at_bound_is_zero : rem (Num MAX_VALUE) (Num MAX_VALUE) = Num 0.
Proof. vm_compute. reflexivity. Qed.

(** ** Reading instance lists after each operation *)

Lemma toast_eq i props w :
  toast i props w =
  (fst (genId (count w)),
   {| count := snd (genId (count w));
      cells := alter (addToast (withId (fst (genId (count w))) props)) i (cells w);
      timers := timers w ++ [ {| due := now w + TOAST_REMOVE_DELAY; target := i;
                                 removes := fst (genId (count w)) |} ];
      now := now w |}).
Proof. unfold toast. destruct (genId (count w)). reflexivity. Qed.

Lemma read_setState_ne i j f w : i <> j -> read j (setState i f w) = read j w.
Proof.
  intros Hne. unfold read, setState. simpl.
  rewrite list_lookup_alter_ne by exact Hne. reflexivity.
Qed.

Lemma read_setState_eq i f w st :
  cells w !! i = Some st -> read i (setState i f w) = toasts (f st).
Proof.
  intros Hst. unfold read, setState. simpl.
  rewrite list_lookup_alter_eq, Hst. reflexivity.
Qed.


Lemma read_toast_ne i j props w :
  i <> j -> read j (snd (toast i props w)) = read j w.
Proof.
  intros Hne. rewrite toast_eq. unfold read. simpl.
  rewrite list_lookup_alter_ne by exact Hne. reflexivity.
Qed.

Lemma read_toast_eq i props w :
  (i < length (cells w))%nat ->
  read i (snd (toast i props w))
  = take TOAST_LIMIT (read i w ++ [withId (fst (genId (count w))) props]).
Proof.
  intros Hi. rewrite toast_eq. unfold read. simpl.
  rewrite list_lookup_alter_eq.
  destruct (lookup_lt_is_Some_2 (cells w) i Hi) as [st Hst].
  rewrite Hst. reflexivity.
Qed.

Lemma read_toast_unmounted i props w :
  (length (cells w) <= i)%nat -> read i (snd (toast i props w)) = [].
Proof.
  intros Hi. rewrite toast_eq. unfold read. simpl.
  rewrite list_lookup_alter_eq, lookup_ge_None_2 by exact Hi. reflexivity.
Qed.

Lemma read_useToast (j : nat) w :
  read j (snd (useToast w)) = read j w.
Proof.
  unfold read, useToast. simpl.
  destruct (decide (j < length (cells w))%nat) as [Hlt|Hge].
  - rewrite lookup_app_l by exact Hlt. reflexivity.
  - rewrite (lookup_ge_None_2 (cells w)) by lia.
    destruct (decide (j = length (cells w))) as [->|Hne].
    + rewrite list_lookup_middle by reflexivity. reflexivity.
    + rewrite lookup_ge_None_2; [reflexivity|]. rewrite length_app. simpl. lia.
Qed.

Lemma read_fire j w tm :
  read j (fire w tm)
  = if decide (target tm = j)
    then filter (fun t => id t <> removes tm) (read j w)
    else read j w.
Proof.
  unfold fire. case_decide as Hj.
  - subst j. unfold read, setState. simpl. rewrite list_lookup_alter_eq.
    destruct (cells w !! target tm); reflexivity.
  - apply read_setState_ne. exact Hj.
Qed.

(** Firing a batch of timers deletes from an instance's list exactly the
    entries whose identifier one of its timers carries. *)
Lemma elem_of_read_foldl_fire tms : forall w j t,
  t ∈ read j (foldl fire w tms)
  <-> t ∈ read j w /\ forall tm, tm ∈ tms -> target tm = j -> id t <> removes tm.
Proof.
  induction tms as [|tm tms IH]; intros w j t; simpl.
  - split; [intros H; split; [exact H|]|intros [H _]; exact H].
    intros tm Htm. inversion Htm.
  - rewrite IH, read_fire. split.
    + intros [Hin Hrest]. case_decide as Hj.
      * apply list_elem_of_filter in Hin as [Hid Hin]. split; [exact Hin|].
        intros tm' Htm'. apply elem_of_cons in Htm' as [->|Htm']; [intros _; exact Hid|].
        apply Hrest. exact Htm'.
      * split; [exact Hin|].
        intros tm' Htm'. apply elem_of_cons in Htm' as [->|Htm']; [intros E; contradiction|].
        apply Hrest. exact Htm'.
    + intros [Hin Hall]. split.
      * case_decide as Hj; [|exact Hin].
        apply list_elem_of_filter. split; [|exact Hin].
        apply Hall; [left|exact Hj].
      * intros tm' Htm'. apply Hall. right. exact Htm'.
Qed.

Lemma read_advance j dt w :
  read j (advance dt w)
  = read j (foldl fire w (filter (fun tm => due tm <= now w + Z.max 0 dt) (timers w))).
Proof. reflexivity. Qed.

Lemma length_read_foldl_fire tms : forall w j,
  (length (read j (foldl fire w tms)) <= length (read j w))%nat.
Proof.
  induction tms as [|tm tms IH]; intros w j; simpl; [lia|].
  etrans; [apply IH|]. rewrite read_fire. case_decide; [|lia].
  apply length_filter.
Qed.

(** ** The cap *)

Lemma length_read_step w e j :
  (length (read j w) <= TOAST_LIMIT)%nat ->
  (length (read j (step w e)) <= TOAST_LIMIT)%nat.
Proof.
  intros Hw. destruct e as [|i props|dt]; cbn [step].
  - rewrite read_useToast. exact Hw.
  - destruct (decide (i = j)) as [->|Hne]; [|rewrite read_toast_ne by exact Hne; exact Hw].
    destruct (decide (j < length (cells w))%nat) as [Hlt|Hge].
    + rewrite read_toast_eq by exact Hlt. rewrite length_take. lia.
    + rewrite read_toast_unmounted by lia. simpl. lia.
  - rewrite read_advance. etrans; [apply length_read_foldl_fire|exact Hw].
Qed.

(** Whatever the sequence of mounts, enqueues and elapsed time, no
    instance's list ever holds more than [TOAST_LIMIT] = 1 entry. *)
Lemma length_read_run evs : forall w j,
  (length (read j w) <= TOAST_LIMIT)%nat ->
  (length (read j (run evs w)) <= TOAST_LIMIT)%nat.
Proof.
  induction evs as [|e evs IH]; intros w j Hw; simpl; [exact Hw|].
  apply IH, length_read_step, Hw.
Qed.

Lemma length_read_from_initial evs j :
  (length (read j (run evs initial)) <= 1)%nat.
Proof. apply (length_read_run evs initial j). simpl. lia. Qed.


(** An enqueue on an empty list of a mounted instance shows the new entry. *)
Lemma toast_on_empty i props w :
  (i < length (cells w))%nat -> read i w = [] ->
  read i (snd (toast i props w)) = [withId (fst (genId (count w))) props].
Proof.
  intros Hlt Hr. rewrite read_toast_eq, Hr by exact Hlt. reflexivity.
Qed.

(** C1, at the failing input.  One instance is mounted and two messages are
    enqueued through it: the list stays within the cap, but it is the
    first message that is kept; the message just enqueued (identifier "2")
    is not in the list. *)
Theorem second_toast_is_dropped :
  let first := {| p_title := Some "Sucesso"; p_description := Some "first";
                  p_action := None |} in
  let second := {| p_title := Some "Erro"; p_description := Some "second";
                   p_action := None |} in
  let w := run [Mount; Enqueue 0 first; Enqueue 0 second] initial in
  read 0 w = [withId "1" first]
  /\ (withId "2" second ∉ read 0 w)
  /\ (length (read 0 w) <= 1)%nat.
Proof.
  intros first second w.
  assert (E : read 0 w = [withId "1" first]) by reflexivity.
  rewrite E. split; [reflexivity|]. split; [|simpl; lia].
  intros H. apply list_elem_of_singleton in H. discriminate H.
Qed.

(** ** One list per instance *)

(** C4, counterexample.  Two instances are mounted and a message is
    enqueued through the first: the first instance's list shows it, the
    list read through the second instance is empty. *)
Lemma toast_not_seen_by_other_instance :
  let props := {| p_title := Some "Sucesso"; p_description := None;
                  p_action := None |} in
  let w := run [Mount; Mount] initial in
  let w' := snd (toast 0 props w) in
  (length (cells w) = 2)%nat
  /\ read 0 w' = [withId "1" props]
  /\ (withId "1" props ∉ read 1 w').
Proof.
  intros props w w'. split; [reflexivity|]. split; [reflexivity|].
  assert (E : read 1 w' = []) by reflexivity.
  rewrite E. apply not_elem_of_nil.
Qed.

(** C4, as amended.  The list is the state of one [useToast] instance and
    only the identifier counter is process-wide: an enqueue through
    instance [i] leaves the list read through every other instance
    unchanged, advances the shared counter, and shows the message in
    instance [i]'s own list when that instance is mounted with an empty
    list. *)
Theorem toast_is_instance_local (i : nat) props w :
  let w' := snd (toast i props w) in
  (forall j : nat, j <> i -> read j w' = read j w)
  /\ count w' = snd (genId (count w))
  /\ ((i < length (cells w))%nat -> read i w = [] ->
      read i w' = [withId (fst (genId (count w))) props]).
Proof.
  intros w'. split; [|split].
  - intros j Hne. apply read_toast_ne. congruence.
  - unfold w'. rewrite toast_eq. reflexivity.
  - apply toast_on_empty.
Qed.

Lemma toast_is_instance_local_witness :
  let props := {| p_title := Some "Sucesso"; p_description := None;
                  p_action := None |} in
  let w := run [Mount; Mount] initial in
  let w' := snd (toast 0 props w) in
  read 1 w' = read 1 w /\ read 0 w' = [withId "1" props].
Proof.
  intros props w w'.
  destruct (toast_is_instance_local 0%nat props w) as (Hother & _ & Hown).
  split.
  - apply Hother. lia.
  - apply Hown; [vm_compute; lia | reflexivity].
Defined.

(** ** Timed removal *)

Lemma TOAST_REMOVE_DELAY_pos : 0 < TOAST_REMOVE_DELAY.
Proof. reflexivity. Qed.



Lemma count_foldl_fire tms : forall w, count (foldl fire w tms) = count w.
Proof. induction tms as [|tm tms IH]; intros w; simpl; [reflexivity|]. rewrite IH. reflexivity. Qed.

Lemma count_step w e c :
  count w = Num c -> 0 <= c -> c + enqueues [e] <= 2 ^ 53 ->
  count (step w e) = Num (c + enqueues [e]).
Proof.
  intros Hc H0 Hle. destruct e as [|i props|dt]; cbn [step enqueues] in *.
  - simpl. rewrite Hc. f_equal. lia.
  - rewrite toast_eq. cbn [snd count]. rewrite Hc, genId_below by lia. reflexivity.
  - unfold advance. cbn [count]. rewrite count_foldl_fire, Hc. f_equal. lia.
Qed.

Lemma enqueues_cons e evs : enqueues (e :: evs) = enqueues [e] + enqueues evs.
Proof. destruct e; simpl; lia. Qed.

Lemma enqueues_nonneg evs : 0 <= enqueues evs.
Proof. induction evs as [|[] evs IH]; simpl; lia. Qed.










(** ** Further properties of the queue *)

Lemma count_run evs : forall w c,
  count w = Num c -> 0 <= c -> c + enqueues evs <= 2 ^ 53 ->
  count (run evs w) = Num (c + enqueues evs).
Proof.
  induction evs as [|e evs IH]; intros w c Hc H0 Hle.
  - simpl. rewrite Hc. f_equal. lia.
  - rewrite enqueues_cons in *.
    pose proof (enqueues_nonneg evs) as Hn1.
    pose proof (enqueues_nonneg [e]) as Hn2.
    change (run (e :: evs) w) with (run evs (step w e)).
    rewrite (IH (step w e) (c + enqueues [e])).
    + f_equal. lia.
    + apply count_step; [exact Hc|lia|lia].
    + lia.
    + lia.
Qed.

(** X1.  The cap is an invariant of the queue: whatever sequence of mounts,
    enqueues and elapsed time follows, an instance whose list is within
    [TOAST_LIMIT] stays within it; from program start every list has at
    most one entry. *)
Theorem cap_is_invariant :
  (forall evs (j : nat), (length (read j (run evs initial)) <= 1)%nat)
  /\ (forall evs w (j : nat),
        (length (read j w) <= TOAST_LIMIT)%nat ->
        (length (read j (run evs w)) <= TOAST_LIMIT)%nat).
Proof.
  split.
  - intros evs j. apply length_read_from_initial.
  - intros evs w j. apply length_read_run.
Qed.

Lemma cap_is_invariant_witness :
  let props := {| p_title := Some "Sucesso"; p_description := None;
                  p_action := None |} in
  let w := run [Mount; Enqueue 0 props] initial in
  let evs := [Enqueue 0 props; Advance 5; Enqueue 0 props] in
  (length (read 0 w) <= TOAST_LIMIT)%nat
  /\ (length (read 0 (run evs w)) <= TOAST_LIMIT)%nat.
Proof.
  intros props w evs.
  assert (H : (length (read 0 w) <= TOAST_LIMIT)%nat) by (vm_compute; lia).
  split; [exact H|]. exact (proj2 cap_is_invariant evs w 0%nat H).
Defined.



(** X3.  Identifiers are unique while the counter is within 2^53: an
    enqueue and any later enqueue of the same run, through whatever
    instances, draw different identifiers. *)
Theorem later_toast_has_fresh_id (i j : nat) p q w c evs :
  count w = Num c -> 0 <= c -> c + 2 + enqueues evs <= 2 ^ 53 ->
  let first := toast i p w in
  fst first <> fst (toast j q (run evs (snd first))).
Proof.
  intros Hc H0 Hle first.
  pose proof (enqueues_nonneg evs) as Hn.
  assert (H1 : fst first = pretty (c + 1)).
  { unfold first. rewrite toast_eq. cbn [fst]. rewrite Hc, genId_below by lia. reflexivity. }
  assert (Hc1 : count (snd first) = Num (c + 1)).
  { unfold first. rewrite toast_eq. cbn [snd count]. rewrite Hc, genId_below by lia.
    reflexivity. }
  assert (Hc2 : count (run evs (snd first)) = Num (c + 1 + enqueues evs)).
  { apply count_run; [exact Hc1|lia|lia]. }
  rewrite H1, toast_eq. cbn [fst]. rewrite Hc2, genId_below by lia. cbn [fst].
  intros E. apply (inj pretty) in E. lia.
Qed.

Lemma later_toast_has_fresh_id_witness :
  let p := {| p_title := Some "Sucesso"; p_description := None; p_action := None |} in
  let w := run [Mount; Mount] initial in
  let evs := [Advance 1000000; Enqueue 1 p] in
  count w = Num 0 /\ 0 <= 0 /\ 0 + 2 + enqueues evs <= 2 ^ 53
  /\ fst (toast 0 p w) <> fst (toast 1 p (run evs (snd (toast 0 p w)))).
Proof.
  intros p w evs.
  assert (Hc : count w = Num 0) by reflexivity.
  assert (H0 : 0 <= 0) by lia.
  assert (Hle : 0 + 2 + enqueues evs <= 2 ^ 53) by (vm_compute; discriminate).
  repeat split; try assumption.
  exact (later_toast_has_fresh_id 0%nat 1%nat p p w 0 evs Hc H0 Hle).
Defined.

Lemma backed_step w e : backed w -> backed (step w e).
Proof.
  intros [Hdue Hback]. destruct e as [|i props|dt]; cbn [step].
  - split.
    + exact Hdue.
    + intros j t. rewrite read_useToast. apply Hback.
  - rewrite toast_eq. cbn [snd]. split.
    + intros tm Htm. cbn [timers now] in *.
      apply elem_of_app in Htm as [Htm|Htm]; [apply Hdue; exact Htm|].
      apply list_elem_of_singleton in Htm. subst tm. cbn [due].
      pose proof TOAST_REMOVE_DELAY_pos. lia.
    + intros j t Ht.
      assert (Hcase : t ∈ read j w \/ (j = i /\ t = withId (fst (genId (count w))) props)).
      { pose proof (read_toast_ne i j props w) as Hne.
        pose proof (read_toast_eq i props w) as Heq.
        pose proof (read_toast_unmounted i props w) as Hun.
        rewrite toast_eq in Hne, Heq, Hun. cbn [snd] in Hne, Heq, Hun.
        destruct (decide (i = j)) as [<-|Hij]; [|left; rewrite <- Hne by exact Hij; exact Ht].
        destruct (decide (i < length (cells w))%nat) as [Hlt|Hge].
        - rewrite Heq in Ht by exact Hlt.
          apply elem_of_take in Ht as (k & Hk & _).
          apply list_elem_of_lookup_2, elem_of_app in Hk as [Hold|Hnew]; [left; exact Hold|].
          right. apply list_elem_of_singleton in Hnew. split; [reflexivity|exact Hnew].
        - rewrite Hun in Ht by lia. apply elem_of_nil in Ht. contradiction. }
      cbn [timers]. destruct Hcase as [Hold|[-> ->]].
      * destruct (Hback j t Hold) as (tm & Htm & Htarget & Hid).
        exists tm. split; [apply elem_of_app; left; exact Htm|]. split; assumption.
      * eexists. split; [apply elem_of_app; right; apply list_elem_of_singleton; reflexivity|].
        split; reflexivity.
  - split.
    + intros tm Htm. cbn [advance timers now] in *.
      apply list_elem_of_filter in Htm as [Hnot _]. lia.
    + intros j t Ht. rewrite read_advance in Ht.
      apply elem_of_read_foldl_fire in Ht as [Hold Hall].
      destruct (Hback j t Hold) as (tm & Htm & Htarget & Hid).
      exists tm. split; [|split; assumption].
      cbn [advance timers]. apply list_elem_of_filter. split; [|exact Htm].
      intros Hready. apply (Hall tm); [|exact Htarget|symmetry; exact Hid].
      apply list_elem_of_filter. split; [exact Hready|exact Htm].
Qed.

Lemma backed_run evs : forall w, backed w -> backed (run evs w).
Proof.
  induction evs as [|e evs IH]; intros w Hw; [exact Hw|].
  change (run (e :: evs) w) with (run evs (step w e)).
  apply IH, backed_step, Hw.
Qed.

Lemma backed_initial : backed initial.
Proof.
  split.
  - intros tm Htm. apply elem_of_nil in Htm. contradiction.
  - intros i t Ht. unfold read in Ht. simpl in Ht. apply elem_of_nil in Ht. contradiction.
Qed.

(** X4.  Nothing on show is without its removal: at every point of every
    run of the program, each entry of each instance's list has a pending
    timer of that instance carrying its identifier, and every pending timer
    is still ahead of the clock.  In particular, when no timer is pending
    every list is empty. *)
Theorem shown_toasts_have_timers evs :
  let w := run evs initial in
  (forall tm, tm ∈ timers w -> now w < due tm)
  /\ (forall (i : nat) t, t ∈ read i w ->
        exists tm, tm ∈ timers w /\ target tm = i /\ removes tm = id t)
  /\ (timers w = [] -> forall i : nat, read i w = []).
Proof.
  intros w. destruct (backed_run evs initial backed_initial) as [Hdue Hback].
  split; [exact Hdue|]. split; [exact Hback|].
  intros Hnone i. apply elem_of_nil_inv. intros t Ht.
  destruct (Hback i t Ht) as (tm & Htm & _).
  fold w in Htm. rewrite Hnone in Htm. apply elem_of_nil in Htm. exact Htm.
Qed.

Lemma shown_toasts_have_timers_witness :
  let props := {| p_title := Some "Sucesso"; p_description := None;
                  p_action := None |} in
  let w := run [Mount; Enqueue 0 props; Advance 1000000] initial in
  timers w = [] /\ read 0 w = [].
Proof.
  intros props w.
  assert (H : timers w = []) by reflexivity.
  split; [exact H|].
  exact (proj2 (proj2 (shown_toasts_have_timers
                         [Mount; Enqueue 0 props; Advance 1000000])) H 0%nat).
Defined.

(** ** The order of removals *)

Lemma removeToast_comm a b st :
  removeToast a (removeToast b st) = removeToast b (removeToast a st).
Proof.
  unfold removeToast. cbn [toasts]. f_equal.
  rewrite !list_filter_filter. apply list_filter_iff. intros t. tauto.
Qed.

Lemma fireCells_comm cs a b :
  fireCells (fireCells cs a) b = fireCells (fireCells cs b) a.
Proof.
  unfold fireCells. destruct (decide (target a = target b)) as [E|Hne].
  - rewrite E, !list_alter_alter_eq. apply list_alter_ext; [|reflexivity].
    intros st _. apply removeToast_comm.
  - apply list_eq. intros k.
    destruct (decide (target a = k)) as [Ha|Ha];
      destruct (decide (target b = k)) as [Hb|Hb]; try congruence.
    + subst k. rewrite list_lookup_alter_ne, !list_lookup_alter_eq by congruence.
      rewrite list_lookup_alter_ne by congruence. reflexivity.
    + subst k. rewrite list_lookup_alter_eq, !list_lookup_alter_ne by congruence.
      rewrite list_lookup_alter_eq. reflexivity.
    + rewrite !list_lookup_alter_ne by congruence. reflexivity.
Qed.

Lemma foldl_fireCells_perm l l' : l ≡ₚ l' -> forall cs,
  foldl fireCells cs l = foldl fireCells cs l'.
Proof.
  induction 1 as [|x l l' _ IH|x y l|l l' l'' _ IH1 _ IH2]; intros cs; simpl.
  - reflexivity.
  - apply IH.
  - rewrite fireCells_comm. reflexivity.
  - rewrite IH1. apply IH2.
Qed.

Lemma cells_foldl_fire l : forall w, cells (foldl fire w l) = foldl fireCells (cells w) l.
Proof.
  induction l as [|tm l IH]; intros w; [reflexivity|].
  simpl. rewrite IH. reflexivity.
Qed.

Lemma timers_foldl_fire l : forall w, timers (foldl fire w l) = timers w.
Proof. induction l as [|tm l IH]; intros w; simpl; [reflexivity|]. rewrite IH. reflexivity. Qed.

Lemma now_foldl_fire l : forall w, now (foldl fire w l) = now w.
Proof. induction l as [|tm l IH]; intros w; simpl; [reflexivity|]. rewrite IH. reflexivity. Qed.

Lemma ready_split (l : list Timer) (t1 t2 : Z) :
  t1 <= t2 ->
  filter (fun tm => due tm <= t1) l
    ++ filter (fun tm => due tm <= t2) (filter (fun tm => ~ due tm <= t1) l)
  ≡ₚ filter (fun tm => due tm <= t2) l.
Proof.
  intros Hle. induction l as [|tm l IH]; [reflexivity|].
  destruct (decide (due tm <= t1)) as [H1|H1].
  - rewrite (filter_cons_True (fun tm => due tm <= t1)) by exact H1.
    rewrite (filter_cons_False (fun tm => ~ due tm <= t1)) by tauto.
    rewrite (filter_cons_True (fun tm => due tm <= t2)) by (cbn; lia).
    simpl. f_equiv. exact IH.
  - rewrite (filter_cons_False (fun tm => due tm <= t1)) by exact H1.
    rewrite (filter_cons_True (fun tm => ~ due tm <= t1)) by exact H1.
    destruct (decide (due tm <= t2)) as [H2|H2].
    + rewrite !(filter_cons_True (fun tm => due tm <= t2)) by exact H2.
      rewrite <- Permutation_middle. f_equiv. exact IH.
    + rewrite !(filter_cons_False (fun tm => due tm <= t2)) by exact H2.
      exact IH.
Qed.

(** X5.  Removal callbacks commute, so the order in which due timers run
    does not matter, and letting time pass in two steps leaves the process
    exactly where one step of the total length leaves it. *)
Theorem advance_advance dt1 dt2 w :
  advance dt2 (advance dt1 w) = advance (Z.max 0 dt1 + Z.max 0 dt2) w.
Proof.
  unfold advance. cbn [now timers count cells].
  set (t1 := now w + Z.max 0 dt1).
  assert (Ht : now w + Z.max 0 (Z.max 0 dt1 + Z.max 0 dt2) = t1 + Z.max 0 dt2)
    by (unfold t1; lia).
  rewrite Ht. set (t2 := t1 + Z.max 0 dt2).
  assert (Hle : t1 <= t2) by (unfold t2; lia).
  f_equal.
  - rewrite !count_foldl_fire. reflexivity.
  - rewrite !cells_foldl_fire. cbn [cells].
    rewrite <- foldl_app. apply foldl_fireCells_perm, ready_split, Hle.
  - rewrite list_filter_filter. apply list_filter_iff. intros tm. lia.
Qed.

(** X6.  Any reordering of a batch of timer callbacks yields the same
    lists: which of two removals runs first makes no difference. *)
Theorem fire_order_irrelevant l l' w (j : nat) :
  l ≡ₚ l' -> read j (foldl fire w l) = read j (foldl fire w l').
Proof.
  intros Hp. unfold read. rewrite !cells_foldl_fire.
  rewrite (foldl_fireCells_perm l l' Hp). reflexivity.
Qed.

Lemma fire_order_irrelevant_witness :
  let a := {| due := 5; target := 0%nat; removes := "1" |} in
  let b := {| due := 7; target := 0%nat; removes := "2" |} in
  let w := {| count := Num 2;
              cells := [ {| toasts := [withId "1" (mkProps None None None);
                                       withId "2" (mkProps None None None)] |} ];
              timers := [a; b]; now := 0 |} in
  [a; b] ≡ₚ [b; a]
  /\ read 0 (foldl fire w [a; b]) = read 0 (foldl fire w [b; a]).
Proof.
  intros a b w.
  assert (Hp : [a; b] ≡ₚ [b; a]) by apply Permutation_swap.
  split; [exact Hp|]. exact (fire_order_irrelevant [a; b] [b; a] w 0%nat Hp).
Defined.

End ToastFacts.

(** * Properties of the settings screen *)

Module SettingsFacts.

Import JS Settings.

(** ** Duration labels *)

Lemma roundDouble_exact z : - 2 ^ 53 < z < 2 ^ 53 -> roundDouble z = z.
Proof.
  intros [Hlo Hhi]. unfold roundDouble, roundNonneg.
  destruct (Z.ltb_spec z 0) as [Hneg|Hpos].
  - destruct (Z.ltb_spec (- z) (2 ^ 53)) as [_|?]; lia.
  - destruct (Z.ltb_spec z (2 ^ 53)) as [_|?]; lia.
Qed.

Lemma digit_range c d : digit c = Some d -> 0 <= d <= 9.
Proof.
  unfold digit. case_bool_decide as Hc; [|discriminate].
  intros [= <-]. lia.
Qed.

Lemma twoDigits_range a b n : twoDigits a b = Some n -> 0 <= n <= 99.
Proof.
  unfold twoDigits. intros H.
  destruct (digit a) as [x|] eqn:Ha; [|discriminate].
  destruct (digit b) as [y|] eqn:Hb; [|discriminate].
  simpl in H. injection H as <-.
  apply digit_range in Ha, Hb. lia.
Qed.

(** What a well-formed "HH:MM" string is, and what the host makes of it. *)
Lemma parseHHMM_inv s h m :
  parseHHMM s = Some (h, m) ->
  0 <= h <= 23 /\ 0 <= m <= 59
  /\ forall tz, Date_parse tz (datePrefix +:+ s)
                = Num (day_2023_01_01 + (h * 60 + m) * 60000 - tz).
Proof.
  destruct s as [|a [|b [|c0 [|c [|d [|x s]]]]]]; try discriminate.
  unfold parseHHMM.
  destruct (Ascii.eqb_spec c0 ":") as [->|_]; [|discriminate].
  destruct (twoDigits a b) as [h'|] eqn:Hh; [|discriminate].
  destruct (twoDigits c d) as [m'|] eqn:Hm; [|discriminate].
  cbn [mbind option_bind].
  case_bool_decide as Hr; [|discriminate].
  intros [= <- <-].
  apply twoDigits_range in Hh as Hh', Hm as Hm'.
  split; [lia|]. split; [lia|]. intros tz.
  unfold Date_parse.
  change (stripPrefix datePrefix (datePrefix +:+ String a (String b (String ":" (String c (String d ""))))))
    with (Some (String a (String b (String ":" (String c (String d "")))))).
  unfold parseTime.
  change (Ascii.eqb ":" ":") with true. cbv iota.
  rewrite Hh, Hm. cbn [mbind option_bind parseSeconds parseOffset].
  rewrite bool_decide_eq_true_2 by (left; lia).
  f_equal. lia.
Qed.

Lemma sub_Date_parse (x y tz : Z) :
  - 2 ^ 52 < x < 2 ^ 52 -> - 2 ^ 52 < y < 2 ^ 52 ->
  sub (Num (day_2023_01_01 + x - tz)) (Num (day_2023_01_01 + y - tz)) = Num (x - y).
Proof.
  intros Hx Hy. unfold sub.
  replace (day_2023_01_01 + x - tz - (day_2023_01_01 + y - tz)) with (x - y) by lia.
  rewrite roundDouble_exact; [reflexivity|]. lia.
Qed.

(** The label for two well-formed strings, whatever their order. *)
Lemma calculateDuration_wellformed tz s e hs ms he me :
  parseHHMM s = Some (hs, ms) -> parseHHMM e = Some (he, me) ->
  let m := (he * 60 + me) - (hs * 60 + ms) in
  calculateDuration tz s e =
  Normal (if bool_decide (m < 60) then pretty m +:+ " minutos"
          else if bool_decide (0 < Z.rem m 60)
               then pretty (m / 60) +:+ "h " +:+ pretty (Z.rem m 60) +:+ "min"
               else pretty (m / 60) +:+ " horas").
Proof.
  intros Hs He m.
  apply parseHHMM_inv in Hs as (Hhs & Hms & Ps), He as (Hhe & Hme & Pe).
  unfold calculateDuration, Date_new, getTime.
  cbn [mbind completion_bind timeValue try_catch].
  rewrite Ps, Pe, sub_Date_parse by lia.
  replace ((he * 60 + me) * 60000 - (hs * 60 + ms) * 60000) with (m * 60000) by (unfold m; lia).
  unfold floorDiv. rewrite Z.div_mul by lia.
  unfold lt, gt, lt, rem, toString.
  case_bool_decide; [reflexivity|].
  change (60 =? 0) with false. cbv iota. reflexivity.
Qed.

(** C5.  For well-formed "HH:MM" strings with the end not before the
    start, and [m] the elapsed minutes: under 60 the label is "{m} minutos";
    from 60 on it is "{h} horas" when the remainder is zero and
    "{h}h {r}min" otherwise.  In particular 08:00 to 08:45 gives
    "45 minutos" and 08:00 to 09:30 gives "1h 30min". *)
Theorem calculateDuration_format tz :
  (forall s e hs ms he me,
      parseHHMM s = Some (hs, ms) -> parseHHMM e = Some (he, me) ->
      hs * 60 + ms <= he * 60 + me ->
      let m := (he * 60 + me) - (hs * 60 + ms) in
      (m < 60 ->
       calculateDuration tz s e = Normal (pretty m +:+ " minutos"))
      /\ (60 <= m -> m mod 60 = 0 ->
          calculateDuration tz s e = Normal (pretty (m / 60) +:+ " horas"))
      /\ (60 <= m -> m mod 60 <> 0 ->
          calculateDuration tz s e
          = Normal (pretty (m / 60) +:+ "h " +:+ pretty (m mod 60) +:+ "min")))
  /\ calculateDuration tz "08:00" "08:45" = Normal "45 minutos"
  /\ calculateDuration tz "08:00" "09:30" = Normal "1h 30min".
Proof.
  split; [|split].
  - intros s e hs ms he me Hs He Hle m.
    rewrite (calculateDuration_wellformed tz s e hs ms he me Hs He). fold m.
    assert (Hm : 0 <= m) by (unfold m; lia).
    rewrite Z.rem_mod_nonneg by lia.
    pose proof (Z.mod_pos_bound m 60 ltac:(lia)) as Hr.
    repeat split.
    + intros Hlt. rewrite bool_decide_eq_true_2 by exact Hlt. reflexivity.
    + intros Hge H0. rewrite bool_decide_eq_false_2 by lia.
      rewrite bool_decide_eq_false_2 by lia. reflexivity.
    + intros Hge Hne. rewrite bool_decide_eq_false_2 by lia.
      rewrite bool_decide_eq_true_2 by lia. reflexivity.
  - rewrite (calculateDuration_wellformed tz "08:00" "08:45" 8 0 8 45) by reflexivity.
    reflexivity.
  - rewrite (calculateDuration_wellformed tz "08:00" "09:30" 8 0 9 30) by reflexivity.
    reflexivity.
Qed.

Lemma calculateDuration_format_witness :
  parseHHMM "08:00" = Some (8, 0) /\ parseHHMM "10:00" = Some (10, 0)
  /\ 8 * 60 + 0 <= 10 * 60 + 0
  /\ calculateDuration 0 "08:00" "10:00" = Normal "2 horas".
Proof.
  split; [reflexivity|]. split; [reflexivity|]. split; [lia|].
  apply (proj1 (proj2 (proj1 (calculateDuration_format 0) "08:00" "10:00" 8 0 10 0
                         eq_refl eq_refl ltac:(lia)))).
  - lia.
  - reflexivity.
Defined.

(** C10.  For well-formed "HH:MM" strings with the end strictly before the
    start nothing special happens: the elapsed minutes [m] are negative,
    hence under 60, and the label is "{m} minutos" with its minus sign. *)
Theorem calculateDuration_negative tz s e hs ms he me :
  parseHHMM s = Some (hs, ms) -> parseHHMM e = Some (he, me) ->
  he * 60 + me < hs * 60 + ms ->
  let m := (he * 60 + me) - (hs * 60 + ms) in
  m < 0
  /\ calculateDuration tz s e = Normal (pretty m +:+ " minutos")
  /\ pretty m = "-" +:+ pretty (Z.to_pos (- m)).
Proof.
  intros Hs He Hlt m. split; [unfold m; lia|]. split.
  - rewrite (calculateDuration_wellformed tz s e hs ms he me Hs He). fold m.
    rewrite bool_decide_eq_true_2 by (unfold m; lia). reflexivity.
  - assert (Hm : m < 0) by (unfold m; lia).
    destruct m as [|p|p]; [lia|lia|]. reflexivity.
Qed.

Lemma calculateDuration_negative_witness :
  parseHHMM "09:30" = Some (9, 30) /\ parseHHMM "08:15" = Some (8, 15)
  /\ 8 * 60 + 15 < 9 * 60 + 30
  /\ calculateDuration 0 "09:30" "08:15" = Normal "-75 minutos".
Proof.
  split; [reflexivity|]. split; [reflexivity|]. split; [lia|].
  exact (proj1 (proj2 (calculateDuration_negative 0 "09:30" "08:15" 9 30 8 15
                         eq_refl eq_refl ltac:(lia)))).
Defined.

(** ** Unparsable times *)

Lemma sub_NaN_l b : sub NaN b = NaN.
Proof. reflexivity. Qed.

Lemma sub_NaN_r a : sub a NaN = NaN.
Proof. destruct a; reflexivity. Qed.

(** As soon as one of the two strings is unparsable the label is
    "NaN horas". *)
Lemma calculateDuration_unparsable tz s e :
  Date_parse tz (datePrefix +:+ s) = NaN \/ Date_parse tz (datePrefix +:+ e) = NaN ->
  calculateDuration tz s e = Normal "NaN horas".
Proof.
  intros H. unfold calculateDuration, Date_new, getTime.
  cbn [mbind completion_bind timeValue try_catch].
  destruct H as [-> | ->]; [rewrite sub_NaN_r | rewrite sub_NaN_l]; reflexivity.
Qed.

Lemma append_assoc (a b c : string) : (a +:+ b) +:+ c = a +:+ (b +:+ c).
Proof.
  induction a as [|x a IH]; [reflexivity|].
  change (String x ((a +:+ b) +:+ c) = String x (a +:+ (b +:+ c))).
  f_equal. exact IH.
Qed.

Lemma append_last_ne (a b : string) (x y : ascii) :
  x <> y -> a +:+ String x "" <> b +:+ String y "".
Proof.
  intros Hxy. revert b. induction a as [|c a IH]; intros [|d b] H.
  - change (String x "" = String y "") in H. congruence.
  - change (String x "" = String d (b +:+ String y "")) in H.
    injection H as _ H. destruct b; discriminate H.
  - change (String c (a +:+ String x "") = String y "") in H.
    injection H as _ H. destruct a; discriminate H.
  - change (String c (a +:+ String x "") = String d (b +:+ String y "")) in H.
    injection H as _ H. exact (IH b H).
Qed.

(** X7.  The body of the [try] never throws, so the [catch] never runs:
    whatever the two strings, a label is returned and it is not the
    fallback. *)
Lemma calculateDuration_never_fallback tz s e :
  exists label, calculateDuration tz s e = Normal label
                /\ label <> "Formato inválido".
Proof.
  unfold calculateDuration, Date_new, getTime.
  cbn [mbind completion_bind timeValue try_catch].
  set (minutes := floorDiv _ 60000).
  change "Formato inválido" with ("Formato inválid" +:+ String "o" "").
  destruct (lt minutes (Num 60)).
  - eexists. split; [reflexivity|].
    change " minutos" with (" minuto" +:+ String "s" "").
    rewrite <- append_assoc. apply append_last_ne. discriminate.
  - destruct (gt (rem minutes (Num 60)) (Num 0)); eexists; (split; [reflexivity|]).
    + change "min" with ("mi" +:+ String "n" "").
      rewrite <- !append_assoc. apply append_last_ne. discriminate.
    + change " horas" with (" hora" +:+ String "s" "").
      rewrite <- append_assoc. apply append_last_ne. discriminate.
Qed.

(** C2, at the failing input.  With the unparsable start "abc" (or end
    "abc") the label is "NaN horas": nothing is thrown, and the fallback
    "Formato inválido" is not what is returned. *)
Theorem calculateDuration_abc tz :
  calculateDuration tz "abc" "08:00" = Normal "NaN horas"
  /\ calculateDuration tz "08:00" "abc" = Normal "NaN horas"
  /\ calculateDuration tz "abc" "08:00" <> Normal "Formato inválido".
Proof.
  assert (H1 : calculateDuration tz "abc" "08:00" = Normal "NaN horas")
    by (apply calculateDuration_unparsable; left; reflexivity).
  split; [exact H1|]. split.
  - apply calculateDuration_unparsable. right. reflexivity.
  - rewrite H1. discriminate.
Qed.

(** ** Writes and the query cache *)

Ltac unfold_writes :=
  unfold perform, saveActivityType, deleteActivityType, saveTimeSlot,
    deleteTimeSlot, mutate, apiRequest.

Ltac split_response server :=
  match goal with
  | |- context [server ?m ?u] => destruct (server m u) as [|msg0] eqn:Hresp
  end.

(** C7.  Every write sends one request; when it settles successfully the
    list key of the written resource, and nothing else, is invalidated
    exactly once; when it fails nothing is invalidated, the cache is left
    as it was, and one destructive toast carrying the error's message is
    raised.  So the invalidation happens if and only if the request
    succeeds. *)
Theorem write_invalidates_iff_success server wr st :
  exists m url body rest,
    log (perform server wr st) = log st ++ ApiRequest m url body :: rest
    /\ requested rest = []
    /\ (invalidatedKeys rest = [listKey wr] <-> server m url = Resolved)
    /\ (server m url = Resolved ->
        invalidated (perform server wr st) = {[ listKey wr ]} ∪ invalidated st)
    /\ (forall msg, server m url = Rejected msg ->
        invalidatedKeys rest = []
        /\ invalidated (perform server wr st) = invalidated st
        /\ exists prefix,
            toasted rest = [ {| title := "Erro"; description := prefix +:+ msg;
                                variant_ := Destructive |} ]).
Proof.
  destruct wr as [v|i v|i|v|i]; unfold_writes;
    try (cbn [truthy]; destruct (Z.eqb_spec i 0) as [Hi|Hi]; cbn [negb]);
    split_response server;
    match type of Hresp with server ?m ?u = _ => exists m, u end;
    do 2 eexists;
    (split; [cbn; rewrite <- ?app_assoc; reflexivity|]);
    (split; [reflexivity|]);
    rewrite Hresp;
    (split; [split; [try reflexivity; discriminate | try reflexivity; cbn; discriminate]|]);
    (split; [try reflexivity; discriminate|]);
    intros msg Hmsg; try discriminate Hmsg;
    injection Hmsg as ->;
    (split; [reflexivity|]); (split; [reflexivity|]);
    eexists; reflexivity.
Qed.

Lemma write_invalidates_iff_success_witness :
  exists m url body rest,
    log (perform (fun _ _ => Resolved) (DeleteTimeSlot 3) mounted)
    = log mounted ++ ApiRequest m url body :: rest
    /\ invalidatedKeys rest = ["/api/time-slots"].
Proof.
  destruct (write_invalidates_iff_success (fun _ _ => Resolved) (DeleteTimeSlot 3) mounted)
    as (m & url & body & rest & Hlog & _ & Hiff & _).
  exists m, url, body, rest. split; [exact Hlog|].
  apply Hiff. reflexivity.
Defined.

(** ** The activity-type form *)

Lemma min_issue n msg field value :
  (String.length value < n)%nat -> min n msg field value = [ {| path := field; message := msg |} ].
Proof. intros H. unfold min. rewrite bool_decide_eq_true_2 by exact H. reflexivity. Qed.

Lemma min_pass n msg field value :
  (n <= String.length value)%nat -> min n msg field value = [].
Proof. intros H. unfold min. rewrite bool_decide_eq_false_2 by lia. reflexivity. Qed.

Lemma length_zero_iff (x : string) : (String.length x < 1)%nat <-> x = "".
Proof. destruct x; simpl; split; intros H; try lia; try discriminate; reflexivity. Qed.

(** The schema passes exactly when the three conditions hold. *)
Lemma activityTypeSchema_nil v :
  activityTypeSchema v = []
  <-> (2 <= String.length (name v))%nat /\ (2 <= String.length (code v))%nat
      /\ color v <> "".
Proof.
  unfold activityTypeSchema, min. rewrite <- (length_zero_iff (color v)).
  repeat case_bool_decide; cbn; split; intros Hx; try discriminate Hx; try lia; reflexivity.
Qed.

(** A submission the schema rejects changes nothing but the form's errors. *)
Lemma submit_rejected server st :
  activityTypeSchema (values (activityForm st)) <> [] ->
  submitActivityForm server st
  = withActivityForm
      {| defaultValues := defaultValues (activityForm st);
         values := values (activityForm st);
         errors := activityTypeSchema (values (activityForm st)) |} st.
Proof.
  intros Hne. unfold submitActivityForm, handleSubmit.
  destruct (activityTypeSchema (values (activityForm st))); [contradiction|reflexivity].
Qed.

(** C8.  When the name or the code has fewer than 2 characters, or the
    colour is empty, the submission is rejected: nothing leaves the
    component (no request, no toast, no invalidation), and the form's
    errors are the schema's issues, with the message of each violated
    field attached to that field.  When all three conditions hold the
    schema finds no issue and the submit handler runs. *)
Theorem activity_form_gate server st :
  let v := values (activityForm st) in
  let st' := submitActivityForm server st in
  ((String.length (name v) < 2)%nat \/ (String.length (code v) < 2)%nat \/ color v = "" ->
   log st' = log st
   /\ errors (activityForm st') = activityTypeSchema v
   /\ activityTypeSchema v <> []
   /\ ((String.length (name v) < 2)%nat ->
       {| path := "name"; message := "Nome deve ter pelo menos 2 caracteres" |}
         ∈ errors (activityForm st'))
   /\ ((String.length (code v) < 2)%nat ->
       {| path := "code"; message := "Código deve ter pelo menos 2 caracteres" |}
         ∈ errors (activityForm st'))
   /\ (color v = "" ->
       {| path := "color"; message := "Cor é obrigatória" |}
         ∈ errors (activityForm st')))
  /\ ((2 <= String.length (name v))%nat -> (2 <= String.length (code v))%nat ->
      color v <> "" ->
      activityTypeSchema v = []
      /\ st' = onSubmitActivityType server v
                 (withActivityForm
                    {| defaultValues := defaultValues (activityForm st);
                       values := v; errors := [] |} st)).
Proof.
  intros v st'. split.
  - intros Hbad.
    assert (Hne : activityTypeSchema v <> []).
    { intros E. apply activityTypeSchema_nil in E as (Hn & Hc & Hcol).
      destruct Hbad as [?|[?|?]]; [lia|lia|contradiction]. }
    assert (Hst' : st' = withActivityForm
                           {| defaultValues := defaultValues (activityForm st);
                              values := v; errors := activityTypeSchema v |} st)
      by (apply submit_rejected; exact Hne).
    rewrite Hst'. cbn [log errors activityForm withActivityForm].
    split; [reflexivity|]. split; [reflexivity|]. split; [exact Hne|].
    unfold activityTypeSchema. split; [|split].
    + intros H. rewrite (min_issue 2 _ "name") by exact H.
      apply elem_of_app. left. apply list_elem_of_singleton. reflexivity.
    + intros H. rewrite (min_issue 2 _ "code") by exact H.
      apply elem_of_app. right. apply elem_of_app. left.
      apply list_elem_of_singleton. reflexivity.
    + intros H. rewrite (min_issue 1 _ "color") by (apply length_zero_iff; exact H).
      apply elem_of_app. right. apply elem_of_app. right.
      apply list_elem_of_singleton. reflexivity.
  - intros Hn Hc Hcol.
    assert (E : activityTypeSchema v = [])
      by (apply activityTypeSchema_nil; repeat split; assumption).
    split; [exact E|].
    unfold st', submitActivityForm, handleSubmit. fold v. rewrite E. reflexivity.
Qed.

Lemma activity_form_gate_witness :
  let short := withActivityForm
                 (mkForm activityDefaults (mkActivityValues "A" "aula" "#3b82f6") [])
                 mounted in
  let good := withActivityForm
                (mkForm activityDefaults (mkActivityValues "Aula" "aula" "#3b82f6") [])
                mounted in
  (log (submitActivityForm (fun _ _ => Resolved) short) = []
   /\ {| path := "name"; message := "Nome deve ter pelo menos 2 caracteres" |}
        ∈ errors (activityForm (submitActivityForm (fun _ _ => Resolved) short)))
  /\ activityTypeSchema (mkActivityValues "Aula" "aula" "#3b82f6") = [].
Proof.
  intros short good. split.
  - destruct (proj1 (activity_form_gate (fun _ _ => Resolved) short))
      as (Hlog & _ & _ & Hname & _).
    + left. cbn. lia.
    + split; [exact Hlog|]. apply Hname. cbn. lia.
  - apply (proj2 (activity_form_gate (fun _ _ => Resolved) good)).
    + cbn. lia.
    + cbn. lia.
    + discriminate.
Defined.

(** ** Create or update *)

Lemma requested_app l1 l2 : requested (l1 ++ l2) = requested l1 ++ requested l2.
Proof. apply omap_app. Qed.


(** Without an editing id the submit is a POST. *)
Lemma submit_without_id server v st :
  editingActivityId st = None ->
  requested (log (onSubmitActivityType server v st))
  = requested (log st) ++ [(POST, "/api/activity-types")].
Proof.
  intros Hid. unfold onSubmitActivityType. rewrite Hid.
  cbn [truthyId]. unfold saveActivityType, mutate, apiRequest.
  split_response server; cbn; rewrite !requested_app; cbn;
    rewrite ?app_nil_r; reflexivity.
Qed.

(** A save that succeeds closes the modal, puts the form back to its
    default values and clears the editing id. *)
Lemma save_success server data st :
  (forall m u, server m u = Resolved) ->
  let st' := saveActivityType server data st in
  activityModalOpen st' = false
  /\ editingActivityId st' = None
  /\ values (activityForm st') = defaultValues (activityForm st)
  /\ defaultValues (activityForm st') = defaultValues (activityForm st).
Proof.
  intros Hok st'. unfold st', saveActivityType, mutate, apiRequest.
  destruct data as [v [i|]]; [destruct (truthy (Num i))|]; rewrite Hok; cbn; auto.
Qed.

(** C9, at the failing input.  The activity with id 0 is opened for
    editing, so the editing id is set (it is [Some 0], not none); the
    submit nevertheless sends a POST to the collection, a create, rather
    than a PUT on id 0. *)
Theorem edit_of_id_zero_creates server v :
  let st := handleEditActivity 0 v mounted in
  editingActivityId st = Some 0
  /\ activityModalOpen st = true
  /\ requested (log (onSubmitActivityType server v st)) = [(POST, "/api/activity-types")].
Proof.
  intros st. split; [reflexivity|]. split; [reflexivity|].
  unfold onSubmitActivityType, saveActivityType, mutate, apiRequest. cbn [truthyId truthy st].
  change (truthyId (editingActivityId st)) with false. cbv iota.
  split_response server; reflexivity.
Qed.

(** ** Further properties of the duration label *)

Lemma pretty_N_go_head x : forall s,
  (0 < x)%N -> exists d rest, pretty_N_go x s = String (pretty_N_char d) rest.
Proof.
  induction (N.lt_wf_0 x) as [x _ IH]; intros s Hx.
  rewrite pretty_N_go_step by exact Hx.
  destruct (decide (x `div` 10 = 0)%N) as [E|Hne].
  - rewrite E, pretty_N_go_0. eauto.
  - apply IH; [apply N.div_lt; lia | apply N.neq_0_lt_0; exact Hne].
Qed.

Lemma pretty_N_char_not_N d : pretty_N_char d <> "N"%char.
Proof. unfold pretty_N_char. repeat case_match; discriminate. Qed.

(** The decimal text of an integer never starts with the letter N. *)
Lemma pretty_Z_head (z : Z) : exists c rest, pretty z = String c rest /\ c <> "N"%char.
Proof.
  destruct z as [|p|p].
  - exists "0"%char, "". split; [reflexivity|discriminate].
  - destruct (pretty_N_go_head (N.pos p) "" ltac:(lia)) as (d & rest & E).
    exists (pretty_N_char d), rest. split; [|apply pretty_N_char_not_N].
    exact E.
  - exists "-"%char, (pretty (N.pos p)). split; [reflexivity|discriminate].
Qed.

Lemma label_not_NaN (z : Z) suffix : pretty z +:+ suffix <> "NaN horas".
Proof.
  destruct (pretty_Z_head z) as (c & rest & -> & Hc).
  change (String c rest +:+ suffix) with (String c (rest +:+ suffix)).
  intros [= E _]. contradiction.
Qed.

(** X8.  The label is "NaN horas" exactly when the host cannot parse one of
    the two times. *)
Theorem NaN_label_iff_unparsable tz s e :
  calculateDuration tz s e = Normal "NaN horas"
  <-> Date_parse tz (datePrefix +:+ s) = NaN \/ Date_parse tz (datePrefix +:+ e) = NaN.
Proof.
  split; [|apply calculateDuration_unparsable].
  unfold calculateDuration, Date_new, getTime.
  cbn [mbind completion_bind timeValue try_catch].
  destruct (Date_parse tz (datePrefix +:+ s)) as [|x]; [intros _; left; reflexivity|].
  destruct (Date_parse tz (datePrefix +:+ e)) as [|y]; [intros _; right; reflexivity|].
  unfold sub, floorDiv, lt, gt, lt, rem.
  change (60 =? 0) with false. cbv iota.
  repeat case_bool_decide; unfold toString; intros [= E];
    destruct (label_not_NaN _ _ E).
Qed.

(** X9.  A slot whose end is the very string of its start shows
    "0 minutos", whenever that string is a time the host can parse. *)
Theorem calculateDuration_same tz s :
  Date_parse tz (datePrefix +:+ s) <> NaN ->
  calculateDuration tz s s = Normal "0 minutos".
Proof.
  intros Hs. unfold calculateDuration, Date_new, getTime.
  cbn [mbind completion_bind timeValue try_catch].
  destruct (Date_parse tz (datePrefix +:+ s)) as [|x]; [contradiction|].
  unfold sub. replace (x - x) with 0 by lia. reflexivity.
Qed.

Lemma calculateDuration_same_witness :
  Date_parse 0 (datePrefix +:+ "08:15:30") <> NaN
  /\ calculateDuration 0 "08:15:30" "08:15:30" = Normal "0 minutos".
Proof.
  assert (H : Date_parse 0 (datePrefix +:+ "08:15:30") <> NaN) by (vm_compute; discriminate).
  split; [exact H|]. exact (calculateDuration_same 0 "08:15:30" H).
Defined.

(** ** The time-slot form *)

Lemma timeSlotSchema_nil v :
  timeSlotSchema v = []
  <-> (5 <= String.length (startTime v))%nat /\ (5 <= String.length (endTime v))%nat.
Proof.
  unfold timeSlotSchema, min.
  repeat case_bool_decide; cbn; split; intros Hx; try discriminate Hx; try lia; reflexivity.
Qed.

Lemma submitTimeSlotForm_rejected server st :
  timeSlotSchema (values (timeSlotForm st)) <> [] ->
  submitTimeSlotForm server st
  = withTimeSlotForm
      {| defaultValues := defaultValues (timeSlotForm st);
         values := values (timeSlotForm st);
         errors := timeSlotSchema (values (timeSlotForm st)) |} st.
Proof.
  intros Hne. unfold submitTimeSlotForm, handleSubmit.
  destruct (timeSlotSchema (values (timeSlotForm st))); [contradiction|reflexivity].
Qed.

Lemma submitTimeSlotForm_valid server st :
  timeSlotSchema (values (timeSlotForm st)) = [] ->
  submitTimeSlotForm server st
  = saveTimeSlot server (values (timeSlotForm st))
      (withTimeSlotForm
         {| defaultValues := defaultValues (timeSlotForm st);
            values := values (timeSlotForm st); errors := [] |} st).
Proof.
  intros E. unfold submitTimeSlotForm, handleSubmit, onSubmitTimeSlot.
  rewrite E. reflexivity.
Qed.

Lemma requested_saveTimeSlot server v st :
  requested (log (saveTimeSlot server v st))
  = requested (log st) ++ [(POST, "/api/time-slots")].
Proof.
  unfold saveTimeSlot, mutate, apiRequest.
  split_response server; cbn; rewrite !requested_app; cbn;
    rewrite ?app_nil_r; reflexivity.
Qed.

(** X10.  The time-slot form is submitted exactly when both times have at
    least 5 characters: otherwise nothing leaves the component and the
    schema's issues become the form's errors; the content of the strings is
    not looked at. *)
Theorem time_slot_form_gate server st :
  let v := values (timeSlotForm st) in
  let st' := submitTimeSlotForm server st in
  ((String.length (startTime v) < 5)%nat \/ (String.length (endTime v) < 5)%nat ->
   log st' = log st
   /\ errors (timeSlotForm st') = timeSlotSchema v
   /\ timeSlotSchema v <> []
   /\ values (timeSlotForm st') = v)
  /\ ((5 <= String.length (startTime v))%nat -> (5 <= String.length (endTime v))%nat ->
      requested (log st') = requested (log st) ++ [(POST, "/api/time-slots")]).
Proof.
  intros v st'. split.
  - intros Hbad.
    assert (Hne : timeSlotSchema v <> []).
    { intros E. apply timeSlotSchema_nil in E. lia. }
    unfold st'. rewrite submitTimeSlotForm_rejected by exact Hne.
    repeat split; try reflexivity. exact Hne.
  - intros Hs He.
    assert (E : timeSlotSchema v = []) by (apply timeSlotSchema_nil; split; assumption).
    unfold st'. rewrite submitTimeSlotForm_valid by exact E.
    rewrite requested_saveTimeSlot. reflexivity.
Qed.

Lemma time_slot_form_gate_witness :
  let short := withTimeSlotForm
                 (mkForm timeSlotDefaults (mkTimeSlotValues "8:00" "09:30") []) mounted in
  let odd := withTimeSlotForm
               (mkForm timeSlotDefaults (mkTimeSlotValues "abcde" "99:99") []) mounted in
  log (submitTimeSlotForm (fun _ _ => Resolved) short) = []
  /\ requested (log (submitTimeSlotForm (fun _ _ => Resolved) odd))
     = [(POST, "/api/time-slots")].
Proof.
  intros short odd. split.
  - apply (proj1 (time_slot_form_gate (fun _ _ => Resolved) short)).
    left. cbn. lia.
  - apply (proj2 (time_slot_form_gate (fun _ _ => Resolved) odd)); cbn; lia.
Defined.

Lemma parseHHMM_length s h m : parseHHMM s = Some (h, m) -> String.length s = 5%nat.
Proof.
  destruct s as [|a [|b [|c0 [|c [|d [|x s]]]]]]; try discriminate.
  reflexivity.
Qed.

(** X11.  Validation does not compare the two times: every pair of
    well-formed "HH:MM" strings is submitted, also when the end is before
    the start, and the label shown for such a slot has a negative minute
    count. *)
Theorem end_before_start_is_submitted server tz st hs ms he me :
  parseHHMM (startTime (values (timeSlotForm st))) = Some (hs, ms) ->
  parseHHMM (endTime (values (timeSlotForm st))) = Some (he, me) ->
  he * 60 + me < hs * 60 + ms ->
  let v := values (timeSlotForm st) in
  requested (log (submitTimeSlotForm server st))
  = requested (log st) ++ [(POST, "/api/time-slots")]
  /\ calculateDuration tz (startTime v) (endTime v)
     = Normal (pretty ((he * 60 + me) - (hs * 60 + ms)) +:+ " minutos").
Proof.
  intros Hs He Hlt v. split.
  - assert (E : timeSlotSchema v = []).
    { apply timeSlotSchema_nil. unfold v.
      rewrite (parseHHMM_length _ _ _ Hs), (parseHHMM_length _ _ _ He). lia. }
    rewrite submitTimeSlotForm_valid by exact E.
    rewrite requested_saveTimeSlot. reflexivity.
  - unfold v. rewrite (calculateDuration_wellformed tz _ _ hs ms he me Hs He).
    rewrite bool_decide_eq_true_2 by lia. reflexivity.
Qed.

Lemma end_before_start_is_submitted_witness :
  let st := withTimeSlotForm
              (mkForm timeSlotDefaults (mkTimeSlotValues "09:30" "08:15") []) mounted in
  parseHHMM "09:30" = Some (9, 30) /\ parseHHMM "08:15" = Some (8, 15)
  /\ 8 * 60 + 15 < 9 * 60 + 30
  /\ requested (log (submitTimeSlotForm (fun _ _ => Resolved) st))
     = [(POST, "/api/time-slots")]
  /\ calculateDuration 0 "09:30" "08:15" = Normal "-75 minutos".
Proof.
  intros st. split; [reflexivity|]. split; [reflexivity|]. split; [lia|].
  exact (end_before_start_is_submitted (fun _ _ => Resolved) 0 st 9 30 8 15
           eq_refl eq_refl ltac:(lia)).
Defined.

(** X12.  Saving a time slot sends one POST to the collection.  When it
    succeeds the time-slot modal is closed, the form is back at its default
    values with no error, the time-slot list is marked invalid, and the
    activity side of the screen (editing id, modal, form) is untouched. *)
Theorem saveTimeSlot_success server v st :
  let st' := saveTimeSlot server v st in
  requested (log st') = requested (log st) ++ [(POST, "/api/time-slots")]
  /\ (server POST "/api/time-slots" = Resolved ->
      timeSlotModalOpen st' = false
      /\ timeSlotForm st' = {| defaultValues := defaultValues (timeSlotForm st);
                               values := defaultValues (timeSlotForm st);
                               errors := [] |}
      /\ invalidated st' = {[ "/api/time-slots" ]} ∪ invalidated st
      /\ editingActivityId st' = editingActivityId st
      /\ activityModalOpen st' = activityModalOpen st
      /\ activityForm st' = activityForm st).
Proof.
  intros st'. split; [apply requested_saveTimeSlot|].
  intros Hok. unfold st', saveTimeSlot, mutate, apiRequest. rewrite Hok.
  repeat split; reflexivity.
Qed.

Lemma saveTimeSlot_success_witness :
  let st := setTimeSlotModalOpen true
              (withTimeSlotForm
                 (mkForm timeSlotDefaults (mkTimeSlotValues "08:00" "09:30") []) mounted) in
  let st' := saveTimeSlot (fun _ _ => Resolved) (mkTimeSlotValues "08:00" "09:30") st in
  timeSlotModalOpen st = true
  /\ timeSlotModalOpen st' = false
  /\ values (timeSlotForm st') = timeSlotDefaults.
Proof.
  intros st st'.
  destruct (proj2 (saveTimeSlot_success (fun _ _ => Resolved)
                     (mkTimeSlotValues "08:00" "09:30") st) eq_refl)
    as (Hclosed & Hform & _).
  split; [reflexivity|]. split; [exact Hclosed|].
  unfold st'. rewrite Hform. reflexivity.
Defined.

(** ** Writes and the state of the screen *)

(** X13.  A write that fails changes nothing on the screen: besides the
    request and the error toast in the log, the editing id, both modals,
    both forms (values and errors) and the set of invalidated lists are as
    before, so the user can submit again. *)
Theorem failed_write_keeps_view server wr st :
  let st' := perform server wr st in
  exists m url,
    requested (log st') = requested (log st) ++ [(m, url)]
    /\ (forall msg, server m url = Rejected msg ->
        editingActivityId st' = editingActivityId st
        /\ activityModalOpen st' = activityModalOpen st
        /\ timeSlotModalOpen st' = timeSlotModalOpen st
        /\ activityForm st' = activityForm st
        /\ timeSlotForm st' = timeSlotForm st
        /\ invalidated st' = invalidated st).
Proof.
  intros st'. unfold st'.
  destruct wr as [v|i v|i|v|i]; unfold_writes;
    try (cbn [truthy]; destruct (Z.eqb_spec i 0) as [Hi|Hi]; cbn [negb]);
    split_response server;
    match type of Hresp with server ?m ?u = _ => exists m, u end;
    (split; [cbn; rewrite !requested_app; cbn; rewrite ?app_nil_r; reflexivity|]);
    rewrite Hresp; intros msg Hmsg; try discriminate Hmsg;
    repeat split; reflexivity.
Qed.

Lemma failed_write_keeps_view_witness :
  let st := handleEditActivity 4 (mkActivityValues "Aula" "aula" "#fff") mounted in
  let st' := perform (fun _ _ => Rejected "409") (UpdateActivity 4 (mkActivityValues "Aula" "aula" "#fff")) st in
  exists m url,
    requested (log st') = [(m, url)]
    /\ activityModalOpen st' = true /\ editingActivityId st' = Some 4.
Proof.
  intros st st'.
  destruct (failed_write_keeps_view (fun _ _ => Rejected "409")
              (UpdateActivity 4 (mkActivityValues "Aula" "aula" "#fff")) st)
    as (m & url & Hreq & Hkeep).
  exists m, url. split; [exact Hreq|].
  destruct (Hkeep "409" eq_refl) as (Hid & Hopen & _).
  split.
  - etrans; [exact Hopen|reflexivity].
  - etrans; [exact Hid|reflexivity].
Defined.






(** X16.  Opening the modal for a new activity always starts from a blank
    form with no editing id, whatever was being edited before; submitting
    it as it stands is rejected on the name and on the code and sends
    nothing. *)
Theorem new_activity_starts_blank server st :
  let st1 := handleNewActivity st in
  let st2 := submitActivityForm server st1 in
  editingActivityId st1 = None
  /\ activityModalOpen st1 = true
  /\ values (activityForm st1) = activityDefaults
  /\ log st2 = log st
  /\ errors (activityForm st2)
     = [ {| path := "name"; message := "Nome deve ter pelo menos 2 caracteres" |};
         {| path := "code"; message := "Código deve ter pelo menos 2 caracteres" |} ].
Proof. intros st1 st2. repeat split; reflexivity. Qed.

(** ** Deleting *)

Lemma requested_deleteActivityType server i st :
  requested (log (deleteActivityType server i st))
  = requested (log st) ++ [(DELETE, "/api/activity-types/" +:+ pretty i)].
Proof.
  unfold deleteActivityType, mutate, apiRequest.
  split_response server; cbn; rewrite !requested_app; cbn;
    rewrite ?app_nil_r; reflexivity.
Qed.

Lemma requested_deleteTimeSlot server i st :
  requested (log (deleteTimeSlot server i st))
  = requested (log st) ++ [(DELETE, "/api/time-slots/" +:+ pretty i)].
Proof.
  unfold deleteTimeSlot, mutate, apiRequest.
  split_response server; cbn; rewrite !requested_app; cbn;
    rewrite ?app_nil_r; reflexivity.
Qed.

(** X17.  A delete sends one DELETE whose URL names the record: for ids
    in the range where a Number is an exact integer, two deletes of the
    same resource go to the same URL only for the same id, and a delete of
    an activity type never hits a time-slot URL. *)
Theorem delete_targets_the_record server st i j :
  - 2 ^ 53 < i < 2 ^ 53 -> - 2 ^ 53 < j < 2 ^ 53 ->
  requested (log (deleteActivityType server i st))
  = requested (log st) ++ [(DELETE, "/api/activity-types/" +:+ pretty i)]
  /\ requested (log (deleteTimeSlot server i st))
     = requested (log st) ++ [(DELETE, "/api/time-slots/" +:+ pretty i)]
  /\ ("/api/activity-types/" +:+ pretty i = "/api/activity-types/" +:+ pretty j -> i = j)
  /\ ("/api/time-slots/" +:+ pretty i = "/api/time-slots/" +:+ pretty j -> i = j)
  /\ "/api/activity-types/" +:+ pretty i <> "/api/time-slots/" +:+ pretty j.
Proof.
  intros _ _.
  split; [apply requested_deleteActivityType|].
  split; [apply requested_deleteTimeSlot|].
  split; [|split].
  - intros E. apply (inj (String.app _)) in E. apply (inj pretty) in E. exact E.
  - intros E. apply (inj (String.app _)) in E. apply (inj pretty) in E. exact E.
  - intros E. discriminate E.
Qed.

Lemma delete_targets_the_record_witness :
  - 2 ^ 53 < 12 < 2 ^ 53
  /\ requested (log (deleteTimeSlot (fun _ _ => Resolved) 12 mounted))
     = [(DELETE, "/api/time-slots/12")]
  /\ 12 = 12.
Proof.
  assert (H : - 2 ^ 53 < 12 < 2 ^ 53) by lia.
  destruct (delete_targets_the_record (fun _ _ => Resolved) mounted 12 12 H H)
    as (_ & Hreq & _ & Hinj & _).
  split; [exact H|]. split; [exact Hreq|]. apply Hinj. reflexivity.
Defined.

(** X18.  Deleting, whether it succeeds or fails, leaves the modals, the
    editing id and both forms as they are; only a success marks the list
    of the resource invalid. *)
Theorem delete_leaves_view server st i :
  let a := deleteActivityType server i st in
  let t := deleteTimeSlot server i st in
  (editingActivityId a = editingActivityId st
   /\ activityModalOpen a = activityModalOpen st
   /\ timeSlotModalOpen a = timeSlotModalOpen st
   /\ activityForm a = activityForm st
   /\ timeSlotForm a = timeSlotForm st)
  /\ (editingActivityId t = editingActivityId st
      /\ activityModalOpen t = activityModalOpen st
      /\ timeSlotModalOpen t = timeSlotModalOpen st
      /\ activityForm t = activityForm st
      /\ timeSlotForm t = timeSlotForm st).
Proof.
  intros a t. unfold a, t, deleteActivityType, deleteTimeSlot, mutate, apiRequest.
  split.
  - destruct (server DELETE ("/api/activity-types/" +:+ toString (Num i)));
      repeat split; reflexivity.
  - destruct (server DELETE ("/api/time-slots/" +:+ toString (Num i)));
      repeat split; reflexivity.
Qed.

End SettingsFacts.
